(** * registration-checker: the roster snapshot diff and its calling loop

    A shallow embedding of [main.go].  Pure code ([findMissingTeams], the
    text composed by [sendSlackMessage]) is embedded as functions; code
    that talks to the network, the file system or the terminal is embedded
    in a state monad over a [World] that holds the files on disk and the
    history of every external action the program performed. *)

From Stdlib Require Import ZArith String Ascii List.
From stdpp Require Import base option list gmap strings.

Local Open Scope Z_scope.
Local Open Scope string_scope.
Local Open Scope list_scope.

(** ** Data model *)

(** The anonymous struct of the [Location] field of [Team]. *)
Record Location := mkLocation {
  City : string;
  Region : string;
  Country : string;
  Postcode : string
}.

(** [Team]: Go's [int] identifiers are modelled as [Z]; the program only
    compares them, it never does arithmetic on them. *)
Record Team := mkTeam {
  ID : Z;
  Number : string;
  TeamName : string;
  RobotName : string;
  Organization : string;
  TeamLocation : Location;
  Registered : bool
}.

(** [APIResponse]: [Total] is the field [Meta.Total]. *)
Record APIResponse := mkAPIResponse {
  Total : Z;
  Data : list Team
}.

(** The zero value of [APIResponse], what [var result APIResponse] holds
    before it is decoded into. *)
Definition zeroAPIResponse : APIResponse := mkAPIResponse 0 [].

(** ** The diff engine *)

Module Diff.

(** The first loop of [findMissingTeams]:
    [for _, team := range currTeams { currMap[team.ID] = team }]. *)
Definition buildCurrMap (currTeams : list Team) : gmap Z Team :=
  foldl (fun currMap team => <[ID team := team]> currMap) ∅ currTeams.

(** One turn of the second loop: the comma-ok lookup and the [append]. *)
Definition keepIfMissing (currMap : gmap Z Team)
    (missingTeams : list Team) (team : Team) : list Team :=
  match currMap !! ID team with
  | Some _ => missingTeams
  | None => missingTeams ++ [team]
  end.

Definition findMissingTeams (prevTeams currTeams : list Team) : list Team :=
  let currMap := buildCurrMap currTeams in
  foldl (keepIfMissing currMap) [] prevTeams.

End Diff.
Export Diff.

(** ** External collaborators *)

(** Go's [error] values, by origin.  Their texts come from the libraries
    and are not modelled. *)
Inductive error :=
| ErrRequest            (* net/http: the request could not be built or sent *)
| ErrDecode             (* encoding/json: the bytes do not decode into the target *)
| ErrNotExist           (* os: the named file does not exist *)
| ErrFileSystem         (* os: any other failure of a read or a write *)
| ErrStatus (code : Z). (* sendSlackMessage's own fmt.Errorf *)

(** [os.IsNotExist]. *)
Definition IsNotExist (err : error) : bool :=
  match err with ErrNotExist => true | _ => false end.

(** A response body, seen through the two decoders the program applies to
    it ([encoding/json] is not part of the repository): what [Decode] makes
    of it with an [APIResponse] as target and with the [{Name string}]
    struct of [fetchEventName] as target; [None] is a decoding error. *)
Record Payload := mkPayload {
  asRoster : option APIResponse;
  asEvent : option string
}.

Record Response := mkResponse {
  StatusCode : Z;
  Body : Payload
}.

(** [http.StatusOK]. *)
Definition StatusOK : Z := 200.

(** The bytes of a snapshot file, seen through [json.Unmarshal] with an
    [APIResponse] as target.  [saveTeams] writes [json.MarshalIndent] of a
    value, which unmarshals to that value again. *)
Inductive FileData :=
| Corrupt
| Stored (teams : APIResponse).

(** What [ioutil.WriteFile] can do: write the file, fail before touching
    it, or fail after it has truncated it. *)
Inductive WriteOutcome := Written | Refused | Truncated.

(** Everything the program does to the outside, in the order it does it. *)
Inductive Event :=
| Printed (text : string)                          (* fmt.Printf *)
| Logged (format eventID : string) (err : error)   (* log.Printf *)
| Fatal (text : string)                            (* log.Fatal *)
| Requested (url authorization : string)           (* GET through client.Do *)
| Posted (url text : string)                       (* http.Post of {"text": text} *)
| FileRead (name : string)                         (* ioutil.ReadFile *)
| FileWritten (name : string) (data : FileData).   (* ioutil.WriteFile *)

(** The outside world as the program meets it.  Answers may depend on
    everything that happened before. *)
Record Env := mkEnv {
  Getenv : string -> string;
  Do : list Event -> string -> string -> error + Response;
  Post : list Event -> string -> string -> error + Z;
  readFault : list Event -> string -> bool;
  WriteFile : list Event -> string -> WriteOutcome
}.

Record World := mkWorld {
  files : gmap string FileData;
  history : list Event
}.

(** ** A state monad over the world *)

Definition M (A : Type) : Type := World -> A * World.

#[global] Instance M_ret : MRet M := fun A a w => (a, w).

#[global] Instance M_bind : MBind M :=
  fun A B k m w => let (a, w') := m w in k a w'.

Definition exec {A} (m : M A) (w : World) : World := snd (m w).

Definition emit (e : Event) : M unit :=
  fun w => (tt, mkWorld (files w) (history w ++ [e])).

Definition printf (text : string) : M unit := emit (Printed text).

Definition logPrintf (format eventID : string) (err : error) : M unit :=
  emit (Logged format eventID err).

(** [for _, x := range xs { body }] *)
Fixpoint forEach {A} (xs : list A) (body : A -> M unit) : M unit :=
  match xs with
  | [] => mret tt
  | x :: rest => body x;; forEach rest body
  end.

(** ** [strings.Split]

    Go's [genSplit] for a non-empty separator: [Count] occurrences are cut
    off one by one with [Index], and what is left is the last piece. *)
Module Strings.

Definition from (i : nat) (s : string) : string :=
  String.substring i (String.length s - i) s.

Fixpoint countLoop (fuel : nat) (s sep : string) : nat :=
  match fuel with
  | O => O
  | S fuel' =>
    match String.index 0 sep s with
    | None => O
    | Some m => S (countLoop fuel' (from (m + String.length sep) s) sep)
    end
  end.

(** [strings.Count], [sep] not empty: every match consumes at least one
    byte, so [len(s)] turns are enough. *)
Definition Count (s sep : string) : nat := countLoop (String.length s) s sep.

Fixpoint splitLoop (n : nat) (s sep : string) : list string :=
  match n with
  | O => [s]
  | S n' =>
    match String.index 0 sep s with
    | None => [s]
    | Some m =>
      String.substring 0 m s :: splitLoop n' (from (m + String.length sep) s) sep
    end
  end.

(** [strings.Split(s, sep)] for the non-empty [sep] that [main] passes.
    With an empty [sep] Go splits after each UTF-8 sequence instead; that
    path is modelled for single-byte characters only. *)
Definition Split (s sep : string) : list string :=
  match sep with
  | EmptyString => (fun c => String c EmptyString) <$> list_ascii_of_string s
  | _ => splitLoop (Count s sep) s sep
  end.

End Strings.

(** ** The program *)

(** The line feed that Go writes [\n]. *)
Definition nl : string := String (ascii_of_nat 10) EmptyString.

(** The format strings of [main]'s five [log.Printf] calls. *)
Definition fetchFailedFormat : string :=
  "Error fetching teams for event %s: %v" +:+ nl.
Definition loadFailedFormat : string :=
  "Error reading previous teams file for event %s: %v" +:+ nl.
Definition saveFailedFormat : string :=
  "Error saving teams to file for event %s: %v" +:+ nl.
Definition nameFailedFormat : string :=
  "Error retrieving name of event %s: %v" +:+ nl.
Definition sendFailedFormat : string :=
  "Error sending Slack message for event %s: %v" +:+ nl.

Section Program.

Context (env : Env).

(** [fmt.Sprintf(baseURL, eventID)] *)
Definition baseURL (eventID : string) : string :=
  "https://www.robotevents.com/api/v2/events/" +:+ eventID
    +:+ "/teams?&per_page=250&page=1".

(** [http.NewRequest], [req.Header.Add] and [client.Do] in one step; a
    request that cannot be built is an [ErrRequest] of [Do]. *)
Definition get (url authorization : string) : M (error + Response) :=
  fun w => (Do env (history w) url authorization,
            mkWorld (files w) (history w ++ [Requested url authorization])).

(** Go returns [(nil, err)] or [(&result, nil)]; that is [inl err] or
    [inr result] here. *)
Definition fetchTeams (token eventID : string) : M (error + APIResponse) :=
  let url := baseURL eventID in
  r ← get url ("Bearer " +:+ token);
  match r with
  | inl err => mret (inl err)
  | inr resp =>
    match asRoster (Body resp) with
    | None => mret (inl ErrDecode)
    | Some result => mret (inr result)
    end
  end.

Definition fetchEventName (token eventID : string) : M (error + string) :=
  let url := "https://www.robotevents.com/api/v2/events/" +:+ eventID in
  r ← get url ("Bearer " +:+ token);
  match r with
  | inl err => mret (inl err)
  | inr resp =>
    match asEvent (Body resp) with
    | None => mret (inl ErrDecode)
    | Some name => mret (inr name)
    end
  end.

(** [fmt.Sprintf("%s_teams.json", eventID)] *)
Definition fileName (eventID : string) : string := eventID +:+ "_teams.json".

(** [ioutil.ReadFile] *)
Definition ReadFile (name : string) : M (error + FileData) :=
  fun w =>
    let r := if readFault env (history w) name then inl ErrFileSystem
             else match files w !! name with
                  | None => inl ErrNotExist
                  | Some data => inr data
                  end in
    (r, mkWorld (files w) (history w ++ [FileRead name])).

Definition loadPreviousTeams (eventID : string) : M (error + APIResponse) :=
  r ← ReadFile (fileName eventID);
  match r with
  | inl err => mret (inl err)
  | inr Corrupt => mret (inl ErrDecode)
  | inr (Stored prevTeams) => mret (inr prevTeams)
  end.

(** [ioutil.WriteFile(name, data, 0644)] *)
Definition writeFile (name : string) (data : FileData) : M (option error) :=
  fun w =>
    let h := history w ++ [FileWritten name data] in
    match WriteFile env (history w) name with
    | Written => (None, mkWorld (<[name := data]> (files w)) h)
    | Refused => (Some ErrFileSystem, mkWorld (files w) h)
    | Truncated => (Some ErrFileSystem, mkWorld (<[name := Corrupt]> (files w)) h)
    end.

(** [json.MarshalIndent] cannot fail on an [APIResponse] (integers,
    strings and booleans only), so the first [return err] is dead. *)
Definition saveTeams (eventID : string) (teams : APIResponse) : M (option error) :=
  writeFile (fileName eventID) (Stored teams).


(** [fmt.Sprintf("`%s` - `%s`\n", team.Number, team.Organization)] *)
Definition teamLine (team : Team) : string :=
  "`" +:+ Number team +:+ "` - `" +:+ Organization team +:+ "`" +:+ nl.

(** The local variable [message] of [sendSlackMessage] once both branches
    of its [if] have run. *)
Definition composeMessage (eventName : string) (missingTeams : list Team) : string :=
  if (length missingTeams =? 0)%nat then
    "No teams are missing for event " +:+ eventName +:+ "."
  else
    foldl (fun message team => message +:+ teamLine team)
      ("*Missing teams for* `" +:+ eventName +:+ "`:" +:+ nl +:+ nl)
      missingTeams.

(** [http.Post(webhookURL, "application/json", ...)] with the payload
    [{"text": text}]; the answer is an error or the status code. *)
Definition post (url text : string) : M (error + Z) :=
  fun w => (Post env (history w) url text,
            mkWorld (files w) (history w ++ [Posted url text])).

(** [json.Marshal] of a [map[string]string] cannot fail. *)
Definition sendSlackMessage (webhookURL eventName : string)
    (missingTeams : list Team) : M (option error) :=
  let message := composeMessage eventName missingTeams in
  r ← post webhookURL message;
  match r with
  | inl err => mret (Some err)
  | inr code =>
    if negb (code =? StatusOK)%Z then mret (Some (ErrStatus code)) else mret None
  end.

(** The comparison [main] makes once a previous snapshot is at hand:
    [findMissingTeams(prevTeams.Data, []Team{}) //currTeams.Data)]. *)
Definition missingInMain (prevTeams currTeams : APIResponse) : list Team :=
  findMissingTeams (Data prevTeams) [].

(** The body of [main]'s loop after a successful fetch and a load that
    gave a previous snapshot ([Some]) or reported that none exists
    ([None], Go's nil [prevTeams]). *)
Definition saveAndCompare (token webhookURL eventID : string)
    (currTeams : APIResponse) (prevTeams : option APIResponse) : M unit :=
  s ← saveTeams eventID currTeams;
  match s with
  | Some err => logPrintf saveFailedFormat eventID err
  | None =>
    match prevTeams with
    | Some prev =>
      let missingTeams := missingInMain prev currTeams in
      if (0 <? length missingTeams)%nat then
        n ← fetchEventName token eventID;
        match n with
        | inl err => logPrintf nameFailedFormat eventID err
        | inr eventName =>
          e ← sendSlackMessage webhookURL eventName missingTeams;
          match e with
          | Some err => logPrintf sendFailedFormat eventID err
          | None => mret tt
          end
        end
      else mret tt
    | None =>
      printf ("No previous team data to compare for event " +:+ eventID +:+ "." +:+ nl)
    end
  end.

(** One turn of [for _, eventID := range eventIDs]; every [continue] ends
    the turn. *)
Definition processEvent (token webhookURL eventID : string) : M unit :=
  printf ("Processing event ID: " +:+ eventID +:+ nl);;
  c ← fetchTeams token eventID;
  match c with
  | inl err => logPrintf fetchFailedFormat eventID err
  | inr currTeams =>
    p ← loadPreviousTeams eventID;
    match p with
    | inl err =>
      if negb (IsNotExist err) then
        logPrintf loadFailedFormat eventID err
      else saveAndCompare token webhookURL eventID currTeams None
    | inr prevTeams =>
      saveAndCompare token webhookURL eventID currTeams (Some prevTeams)
    end
  end.

(** [log.Fatal]: the line is logged and the process exits with status 1. *)
Definition fatal (text : string) : M Z := emit (Fatal text);; mret 1.

(** [main], returning the exit status. *)
Definition main : M Z :=
  let token := Getenv env "API_TOKEN" in
  if String.eqb token "" then fatal "API_TOKEN environment variable is not set"
  else
    let webhookURL := Getenv env "SLACK_WEBHOOK_URL" in
    if String.eqb webhookURL "" then
      fatal "SLACK_WEBHOOK_URL environment variable is not set"
    else
      let eventIDs := Strings.Split (Getenv env "EVENT_IDS") "," in
      forEach eventIDs (processEvent token webhookURL);;
      mret 0.

End Program.

(** ** How a turn of the loop can be cut short *)

(** The three failures after which [main] logs and says [continue] before
    it compares anything. *)
Inductive Abort :=
| FetchFailed (err : error)
| LoadFailed (err : error)
| SaveFailed (currTeams : APIResponse) (err : error).

(** [Aborts env token eventID w a]: in world [w], the turn for [eventID]
    meets failure [a]. *)
Inductive Aborts (env : Env) (token eventID : string) (w : World) : Abort -> Prop :=
| aborts_fetch err w1 :
    fetchTeams env token eventID
      (exec (printf ("Processing event ID: " +:+ eventID +:+ nl)) w) = (inl err, w1) ->
    Aborts env token eventID w (FetchFailed err)
| aborts_load currTeams err w1 w2 :
    fetchTeams env token eventID
      (exec (printf ("Processing event ID: " +:+ eventID +:+ nl)) w) = (inr currTeams, w1) ->
    loadPreviousTeams env eventID w1 = (inl err, w2) ->
    IsNotExist err = false ->
    Aborts env token eventID w (LoadFailed err)
| aborts_save currTeams prev err w1 w2 w3 :
    fetchTeams env token eventID
      (exec (printf ("Processing event ID: " +:+ eventID +:+ nl)) w) = (inr currTeams, w1) ->
    loadPreviousTeams env eventID w1 = (prev, w2) ->
    match prev with inl err' => IsNotExist err' = true | inr _ => True end ->
    saveTeams env eventID currTeams w2 = (Some err, w3) ->
    Aborts env token eventID w (SaveFailed currTeams err).

(** What a turn that is cut short does to the outside, in order. *)
Definition abortTrace (token eventID : string) (a : Abort) : list Event :=
  [Printed ("Processing event ID: " +:+ eventID +:+ nl);
   Requested (baseURL eventID) ("Bearer " +:+ token)] ++
  match a with
  | FetchFailed err =>
      [Logged fetchFailedFormat eventID err]
  | LoadFailed err =>
      [FileRead (fileName eventID);
       Logged loadFailedFormat eventID err]
  | SaveFailed currTeams err =>
      [FileRead (fileName eventID);
       FileWritten (fileName eventID) (Stored currTeams);
       Logged saveFailedFormat eventID err]
  end.

(** ** Concrete rosters and worlds *)

Module Scenario.

Definition team (id : Z) (number organization : string) : Team :=
  mkTeam id number "" "" organization (mkLocation "" "" "" "") false.

Definition teamA : Team := team 1 "A" "Alpha School".
Definition teamB : Team := team 2 "B" "Beta Academy".

(** A previous sequence in which identifier 7 occurs twice. *)
Definition twins : list Team := [team 7 "X" "first"; teamA; team 7 "Y" "second"].

Definition previous : APIResponse := mkAPIResponse 2 [teamA; teamB].
Definition current : APIResponse := mkAPIResponse 1 [teamA].

Definition getenv (eventIDs : string) (name : string) : string :=
  if String.eqb name "API_TOKEN" then "secret"
  else if String.eqb name "SLACK_WEBHOOK_URL" then "https://hooks.slack.test/T0"
  else if String.eqb name "EVENT_IDS" then eventIDs
  else "".

(** Nothing on the network answers. *)
Definition offline (eventIDs : string) : Env :=
  mkEnv (getenv eventIDs)
        (fun _ _ _ => inl ErrRequest)
        (fun _ _ _ => inl ErrRequest)
        (fun _ _ => false)
        (fun _ _ => Written).

(** Event 456 answers with the roster [current] and the name "Worlds";
    every other request fails; Slack accepts what is posted. *)
Definition online (eventIDs : string) : Env :=
  mkEnv (getenv eventIDs)
        (fun _ url _ =>
           if String.eqb url (baseURL "456")
           then inr (mkResponse 200 (mkPayload (Some current) None))
           else if String.eqb url "https://www.robotevents.com/api/v2/events/456"
           then inr (mkResponse 200 (mkPayload (Some zeroAPIResponse) (Some "Worlds")))
           else inl ErrRequest)
        (fun _ _ _ => inr 200)
        (fun _ _ => false)
        (fun _ _ => Written).


(** A first run: no file, nothing done yet. *)
Definition fresh : World := mkWorld ∅ [].

(** The first run once the roster of event 456 has been asked for. *)
Definition asked : World :=
  mkWorld ∅ [Printed ("Processing event ID: 456" +:+ nl);
             Requested (baseURL "456") "Bearer secret"].

(** A later run: the snapshot of event 456 holds [previous]. *)
Definition seen : World := mkWorld {[ fileName "456" := Stored previous ]} [].

End Scenario.

(** ** What a turn may do to the outside *)

(** The local [url] of [fetchEventName]. *)
Definition nameURL (eventID : string) : string :=
  "https://www.robotevents.com/api/v2/events/" +:+ eventID.

(** [Permitted token webhookURL eventID e]: [e] is a line on the terminal,
    a log line about [eventID], a request for the roster or the name of
    [eventID] carrying the token, a post to the webhook, or a read or a
    write of the snapshot file of [eventID]. *)
Inductive Permitted (token webhookURL eventID : string) : Event -> Prop :=
| permitted_print text : Permitted token webhookURL eventID (Printed text)
| permitted_log format err :
    Permitted token webhookURL eventID (Logged format eventID err)
| permitted_roster :
    Permitted token webhookURL eventID
      (Requested (baseURL eventID) ("Bearer " +:+ token))
| permitted_name :
    Permitted token webhookURL eventID
      (Requested (nameURL eventID) ("Bearer " +:+ token))
| permitted_post text : Permitted token webhookURL eventID (Posted webhookURL text)
| permitted_read : Permitted token webhookURL eventID (FileRead (fileName eventID))
| permitted_write data :
    Permitted token webhookURL eventID (FileWritten (fileName eventID) data).

(** ** Further concrete worlds *)

Module Cases.

Import Scenario.

(** The roster of event 456 answers, its name does not. *)
Definition nameless : Env :=
  mkEnv (getenv "456")
        (fun _ url _ =>
           if String.eqb url (baseURL "456")
           then inr (mkResponse 200 (mkPayload (Some current) None))
           else inl ErrRequest)
        (fun _ _ _ => inr 200)
        (fun _ _ => false)
        (fun _ _ => Written).

(** As [online], but Slack answers every post with status 500. *)
Definition muted : Env :=
  mkEnv (getenv "456") (Do (online "456")) (fun _ _ _ => inr 500)
        (fun _ _ => false) (fun _ _ => Written).

(** No token is configured. *)
Definition unconfigured : Env :=
  mkEnv (fun _ => "") (fun _ _ _ => inl ErrRequest) (fun _ _ _ => inl ErrRequest)
        (fun _ _ => false) (fun _ _ => Written).

(** The snapshot of event 456 holds an empty roster. *)
Definition seenNobody : World :=
  mkWorld {[ fileName "456" := Stored zeroAPIResponse ]} [].

(** The snapshot of event 456 cannot be decoded. *)
Definition broken : World := mkWorld {[ fileName "456" := Corrupt ]} [].

(** A roster with the identifiers of [current], in other words: team 1
    twice, with other payloads. *)
Definition renamed : list Team := [team 1 "Z" "Omega"; team 1 "A" ""].

End Cases.

(** * Properties *)

(** ** The diff engine *)

Section DiffFacts.

Implicit Types (prev curr : list Team) (team : Team) (i : Z).

(** The insert loop started from any map: an identifier that occurs in the
    slice ends up bound to its last occurrence, any other keeps its old
    binding. *)
Lemma insert_loop_lookup (m : gmap Z Team) curr i :
  foldl (fun currMap team => <[ID team := team]> currMap) m curr !! i
  = match last (filter (λ team, ID team = i) curr) with
    | Some team => Some team
    | None => m !! i
    end.
Proof.
  revert m. induction curr as [|t curr IH]; intros m; simpl; [done|].
  rewrite IH, filter_cons. destruct (decide (ID t = i)) as [<-|Hne].
  - rewrite last_cons. destruct (last _); [done|]. by rewrite lookup_insert_eq.
  - destruct (last _); [done|]. by rewrite lookup_insert_ne.
Qed.

Lemma buildCurrMap_lookup curr i :
  buildCurrMap curr !! i = last (filter (λ team, ID team = i) curr).
Proof.
  unfold buildCurrMap. rewrite insert_loop_lookup, lookup_empty.
  by destruct (last _).
Qed.

Lemma buildCurrMap_None curr i :
  buildCurrMap curr !! i = None ↔ i ∉ ID <$> curr.
Proof.
  rewrite buildCurrMap_lookup, last_None. split.
  - intros Hnil [t [-> Ht]]%list_elem_of_fmap.
    assert (t ∈ filter (λ team, ID team = ID t) curr) as Hin
      by by apply list_elem_of_filter.
    rewrite Hnil in Hin. by apply not_elem_of_nil in Hin.
  - intros Hout. induction curr as [|t curr IH]; [done|].
    rewrite fmap_cons, not_elem_of_cons in Hout. destruct Hout as [Hne Hout].
    rewrite filter_cons_False by done. auto.
Qed.

(** The append loop started from any result so far. *)
Lemma append_loop_filter (m : gmap Z Team) acc prev :
  foldl (keepIfMissing m) acc prev
  = acc ++ filter (λ team, m !! ID team = None) prev.
Proof.
  revert acc. induction prev as [|t prev IH]; intros acc; simpl.
  - by rewrite app_nil_r.
  - rewrite IH, filter_cons. unfold keepIfMissing.
    destruct (m !! ID t) eqn:E.
    + by rewrite decide_False by done.
    + rewrite decide_True by done. by rewrite <- app_assoc.
Qed.

Lemma findMissingTeams_unbound prev curr :
  findMissingTeams prev curr
  = filter (λ team, buildCurrMap curr !! ID team = None) prev.
Proof. unfold findMissingTeams. by rewrite append_loop_filter. Qed.

(** C2: [findMissingTeams previous current] is [previous] with exactly the
    entities removed whose identifier is the identifier of some entity of
    [current]; what stays keeps the order it has in [previous]. *)
Theorem findMissingTeams_spec prev curr :
  findMissingTeams prev curr = filter (λ team, ID team ∉ ID <$> curr) prev.
Proof.
  rewrite findMissingTeams_unbound.
  apply list_filter_iff. intros t. apply buildCurrMap_None.
Qed.

(** C8: against an empty comparison set a non-empty previous sequence comes
    back whole, unchanged and in order. *)
Theorem findMissingTeams_empty_comparison (X : list Team) :
  X ≠ [] → findMissingTeams X [] = X.
Proof.
  intros _. rewrite findMissingTeams_unbound.
  induction X as [|t X IH]; [done|].
  rewrite filter_cons_True; [by rewrite IH|]. apply lookup_empty.
Qed.

Lemma findMissingTeams_empty_comparison_witness :
  [Scenario.teamA; Scenario.teamB] ≠ []
  ∧ findMissingTeams [Scenario.teamA; Scenario.teamB] []
    = [Scenario.teamA; Scenario.teamB].
Proof.
  split; [discriminate|].
  apply (findMissingTeams_empty_comparison [Scenario.teamA; Scenario.teamB]).
  discriminate.
Defined.

(** C9: the lookup binds each identifier of the comparison set to the last
    entity that carries it (so with duplicates the last one wins), and an
    entity of the previous sequence is left out of the result exactly when
    its identifier occurs somewhere in the comparison set. *)
Theorem duplicate_comparison_ids prev curr :
  (∀ i, buildCurrMap curr !! i = last (filter (λ team, ID team = i) curr))
  ∧ (∀ team, team ∈ findMissingTeams prev curr
             ↔ team ∈ prev ∧ ID team ∉ ID <$> curr).
Proof.
  split; [intros i; apply buildCurrMap_lookup|].
  intros t. rewrite findMissingTeams_unbound, list_elem_of_filter.
  rewrite buildCurrMap_None. tauto.
Qed.

(** C10: when an identifier is absent from the comparison set, every entity
    of the previous sequence that carries it is in the result, as often and
    in the same order as in the previous sequence. *)
Theorem duplicate_previous_ids_kept prev curr i :
  i ∉ ID <$> curr →
  filter (λ team, ID team = i) (findMissingTeams prev curr)
  = filter (λ team, ID team = i) prev.
Proof.
  intros Hout. rewrite findMissingTeams_unbound, list_filter_filter.
  apply list_filter_iff. intros t. split; [tauto|].
  intros <-. split; [done|]. by apply buildCurrMap_None.
Qed.

Lemma duplicate_previous_ids_kept_witness :
  (7 ∉ ID <$> [Scenario.teamA])
  ∧ filter (λ team, ID team = 7) (findMissingTeams Scenario.twins [Scenario.teamA])
    = filter (λ team, ID team = 7) Scenario.twins.
Proof.
  assert (7 ∉ ID <$> [Scenario.teamA]) as Hout.
  { intros Hin. apply list_elem_of_singleton in Hin. discriminate. }
  split; [exact Hout|].
  apply (duplicate_previous_ids_kept _ [Scenario.teamA] 7 Hout).
Defined.

End DiffFacts.

(** ** The notification text *)

Section MessageFacts.

Lemma append_cons (c : ascii) (s t : string) :
  String c s +:+ t = String c (s +:+ t).
Proof. reflexivity. Qed.

Lemma append_empty_r (s : string) : s +:+ "" = s.
Proof. induction s as [|c s IH]; [done|]. by rewrite append_cons, IH. Qed.

Lemma append_assoc (s1 s2 s3 : string) : (s1 +:+ s2) +:+ s3 = s1 +:+ s2 +:+ s3.
Proof. induction s1 as [|c s1 IH]; [done|]. by rewrite !append_cons, IH. Qed.

Lemma concat_cons (s : string) (l : list string) :
  String.concat "" (s :: l) = s +:+ String.concat "" l.
Proof. destruct l; cbn; [by rewrite append_empty_r|done]. Qed.

Lemma line_loop (header : string) (missingTeams : list Team) :
  foldl (fun message team => message +:+ teamLine team) header missingTeams
  = header +:+ String.concat "" (teamLine <$> missingTeams).
Proof.
  revert header. induction missingTeams as [|t l IH]; intros header.
  - cbn. by rewrite append_empty_r.
  - rewrite fmap_cons, concat_cons. cbn [foldl]. by rewrite IH, append_assoc.
Qed.

(** C7: for an empty missing-team list the message is the "no teams are
    missing" sentence naming the collection; for a non-empty one it is the
    header naming the collection followed by one line per missing entity,
    in the order of the list, each line showing that entity's display
    number and organization; this text is what [sendSlackMessage] posts. *)
Theorem notification_message (eventName : string) :
  composeMessage eventName [] = "No teams are missing for event " +:+ eventName +:+ "."
  ∧ (∀ team rest,
       composeMessage eventName (team :: rest)
       = ("*Missing teams for* `" +:+ eventName +:+ "`:" +:+ nl +:+ nl)
         +:+ String.concat "" (teamLine <$> team :: rest))
  ∧ (∀ team,
       teamLine team
       = "`" +:+ Number team +:+ "` - `" +:+ Organization team +:+ "`" +:+ nl)
  ∧ (∀ env webhookURL missingTeams w,
       history (exec (sendSlackMessage env webhookURL eventName missingTeams) w)
       = history w ++ [Posted webhookURL (composeMessage eventName missingTeams)]).
Proof.
  split; [done|]. split; [|split; [done|]].
  - intros t l. unfold composeMessage. cbn [length Nat.eqb]. apply line_loop.
  - intros env hook l w. unfold sendSlackMessage, exec, post, mbind, M_bind. cbn.
    destruct (Post env (history w) hook _) as [err|code]; [done|].
    by destruct (negb _).
Qed.
End MessageFacts.

(** ** The roster fetch *)

Section FetchFacts.

Context (env : Env).

(** What [fetchTeams] returns and leaves behind, by the answer of the
    transport. *)
Lemma fetchTeams_run token eventID w :
  fetchTeams env token eventID w
  = (match Do env (history w) (baseURL eventID) ("Bearer " +:+ token) with
     | inl err => inl err
     | inr resp =>
       match asRoster (Body resp) with
       | None => inl ErrDecode
       | Some result => inr result
       end
     end,
     mkWorld (files w)
       (history w ++ [Requested (baseURL eventID) ("Bearer " +:+ token)])).
Proof.
  unfold fetchTeams, get, mbind, M_bind. cbn.
  destruct (Do env _ _ _) as [err|resp]; [done|].
  by destruct (asRoster _).
Qed.


End FetchFacts.


(** ** The orchestration loop *)

Section LoopFacts.

Context (env : Env) (token webhookURL : string).

Local Abbreviation turn := (processEvent env token webhookURL).

Lemma exec_bind {A B} (m : M A) (k : A → M B) w :
  exec (m ≫= k) w = exec (k (m w).1) (m w).2.
Proof. unfold exec, mbind, M_bind. by destruct (m w). Qed.

Lemma forEach_cons (id : string) ids (body : string → M unit) w :
  exec (forEach (id :: ids) body) w = exec (forEach ids body) (exec (body id) w).
Proof. cbn [forEach]. by rewrite exec_bind. Qed.

Lemma forEach_app (xs ys : list string) (body : string → M unit) w :
  exec (forEach (xs ++ ys) body) w
  = exec (forEach ys body) (exec (forEach xs body) w).
Proof.
  revert w. induction xs as [|x xs IH]; intros w; [done|].
  by rewrite <- app_comm_cons, !forEach_cons, IH.
Qed.

Lemma loadPreviousTeams_run eventID w :
  loadPreviousTeams env eventID w
  = (if readFault env (history w) (fileName eventID) then inl ErrFileSystem
     else match files w !! fileName eventID with
          | None => inl ErrNotExist
          | Some Corrupt => inl ErrDecode
          | Some (Stored prevTeams) => inr prevTeams
          end,
     mkWorld (files w) (history w ++ [FileRead (fileName eventID)])).
Proof.
  unfold loadPreviousTeams, ReadFile, mbind, M_bind. cbn.
  destruct (readFault _ _ _); [done|].
  destruct (files w !! _) as [[|prev]|]; done.
Qed.

Lemma saveTeams_run eventID teams w :
  saveTeams env eventID teams w
  = let h := history w ++ [FileWritten (fileName eventID) (Stored teams)] in
    match WriteFile env (history w) (fileName eventID) with
    | Written => (None, mkWorld (<[fileName eventID := Stored teams]> (files w)) h)
    | Refused => (Some ErrFileSystem, mkWorld (files w) h)
    | Truncated =>
      (Some ErrFileSystem, mkWorld (<[fileName eventID := Corrupt]> (files w)) h)
    end.
Proof. reflexivity. Qed.

(** A turn, step by step. *)
Lemma processEvent_run eventID w :
  turn eventID w
  = match fetchTeams env token eventID
            (exec (printf ("Processing event ID: " +:+ eventID +:+ nl)) w) with
    | (inl err, w1) =>
        logPrintf fetchFailedFormat eventID err w1
    | (inr currTeams, w1) =>
      match loadPreviousTeams env eventID w1 with
      | (inl err, w2) =>
        if IsNotExist err
        then saveAndCompare env token webhookURL eventID currTeams None w2
        else logPrintf loadFailedFormat
               eventID err w2
      | (inr prevTeams, w2) =>
        saveAndCompare env token webhookURL eventID currTeams (Some prevTeams) w2
      end
    end.
Proof.
  unfold processEvent, mbind, M_bind, exec. cbn.
  destruct (fetchTeams _ _ _ _) as [[err|curr] w1]; [done|].
  destruct (loadPreviousTeams _ _ _) as [[err|prev] w2]; [|done].
  by destruct (IsNotExist err).
Qed.

(** The comparison and the notification only add to the history. *)
Lemma saveAndCompare_extends eventID currTeams prevTeams w :
  ∃ more,
    history (exec (saveAndCompare env token webhookURL eventID currTeams prevTeams) w)
    = history w ++ more.
Proof.
  unfold saveAndCompare, exec, mbind, M_bind. rewrite saveTeams_run. cbn zeta.
  unfold fetchEventName, sendSlackMessage, get, post, logPrintf, printf, emit,
    mbind, M_bind, mret, M_ret.
  destruct (WriteFile _ _ _); cbn;
    try (eexists; rewrite <- app_assoc; reflexivity).
  destruct prevTeams as [prev|]; cbn;
    [|eexists; rewrite <- app_assoc; reflexivity].
  destruct (missingInMain prev currTeams) as [|t l]; cbn; [eexists; reflexivity|].
  destruct (Do _ _ _ _) as [err|resp]; cbn;
    [eexists; rewrite <- !app_assoc; reflexivity|].
  destruct (asEvent _); cbn; [|eexists; rewrite <- !app_assoc; reflexivity].
  destruct (Post _ _ _ _) as [err|code]; cbn;
    [eexists; rewrite <- !app_assoc; reflexivity|].
  destruct (negb _); cbn; eexists; rewrite <- !app_assoc; reflexivity.
Qed.

(** Every turn announces its identifier and asks for its roster before
    anything else. *)
Lemma processEvent_begins eventID w :
  ∃ more,
    history (exec (turn eventID) w)
    = history w ++ Printed ("Processing event ID: " +:+ eventID +:+ nl)
        :: Requested (baseURL eventID) ("Bearer " +:+ token) :: more.
Proof.
  unfold exec. rewrite processEvent_run, fetchTeams_run.
  destruct (match Do _ _ _ _ with inl _ => _ | inr _ => _ end) as [err|curr].
  { cbn. eexists. rewrite <- !app_assoc. reflexivity. }
  rewrite loadPreviousTeams_run.
  set (w2 := mkWorld _ (_ ++ [FileRead _])).
  assert (∀ prev, ∃ more, history (saveAndCompare env token webhookURL eventID curr prev w2).2
            = history w ++ Printed ("Processing event ID: " +:+ eventID +:+ nl)
        :: Requested (baseURL eventID) ("Bearer " +:+ token) :: more) as Hsave.
  { intros prev. destruct (saveAndCompare_extends eventID curr prev w2) as [more Hmore].
    unfold exec in Hmore. rewrite Hmore. subst w2. cbn.
    eexists. rewrite <- !app_assoc. reflexivity. }
  destruct (if readFault _ _ _ then _ else _) as [err|prev]; [|apply Hsave].
  destruct (IsNotExist err); [apply Hsave|].
  subst w2. cbn. eexists. rewrite <- !app_assoc. reflexivity.
Qed.

(** The loop asks for the roster of every identifier it is given. *)
Lemma forEach_requests ids w :
  ∃ later,
    history (exec (forEach ids turn) w) = history w ++ later
    ∧ ∀ id, id ∈ ids → Requested (baseURL id) ("Bearer " +:+ token) ∈ later.
Proof.
  revert w. induction ids as [|id ids IH]; intros w.
  - exists []. split; [by rewrite app_nil_r|]. by intros id ?%not_elem_of_nil.
  - rewrite forEach_cons.
    destruct (processEvent_begins id w) as [more Hmore].
    destruct (IH (exec (turn id) w)) as (later & Hlater & Hall).
    eexists. split.
    + rewrite Hlater, Hmore, <- app_assoc. reflexivity.
    + intros id' [->|Hin]%elem_of_cons.
      * apply elem_of_app. left. rewrite !elem_of_cons. auto.
      * apply elem_of_app. right. by apply Hall.
Qed.


(** C5: when the turn of an identifier fails at the fetch, at the load (for
    a reason other than "not found") or at the save, that turn consists of
    one attempt of each step up to the failing one and one log line, and
    nothing else (no retry); a failure before the save leaves the files
    alone; the loop then runs the turns of all later identifiers, each of
    which asks for its roster. *)
Theorem failed_id_is_skipped before id after w a :
  Aborts env token id (exec (forEach before turn) w) a →
  history (exec (turn id) (exec (forEach before turn) w))
  = history (exec (forEach before turn) w) ++ abortTrace token id a
  ∧ match a with
    | SaveFailed _ _ => True
    | _ => files (exec (turn id) (exec (forEach before turn) w))
           = files (exec (forEach before turn) w)
    end
  ∧ exec (forEach (before ++ id :: after) turn) w
    = exec (forEach after turn) (exec (turn id) (exec (forEach before turn) w))
  ∧ ∃ later,
      history (exec (forEach (before ++ id :: after) turn) w)
      = history (exec (forEach before turn) w) ++ abortTrace token id a ++ later
      ∧ ∀ id', id' ∈ after →
          Requested (baseURL id') ("Bearer " +:+ token) ∈ later.
Proof.
  set (w1 := exec (forEach before turn) w). intros Ha.
  assert (history (exec (turn id) w1) = history w1 ++ abortTrace token id a
          ∧ match a with
            | SaveFailed _ _ => True
            | _ => files (exec (turn id) w1) = files w1
            end) as [Hturn Hfiles].
  { unfold exec. rewrite processEvent_run.
    destruct Ha as [err w2 Hfetch|curr err w2 w3 Hfetch Hload Hne
                   |curr prev err w2 w3 w4 Hfetch Hload Hprev Hsave].
    - rewrite Hfetch. rewrite fetchTeams_run in Hfetch.
      injection Hfetch as _ <-. cbn. by rewrite <- !app_assoc.
    - rewrite Hfetch, Hload, Hne. rewrite fetchTeams_run in Hfetch.
      rewrite loadPreviousTeams_run in Hload.
      injection Hfetch as _ <-. injection Hload as _ <-. cbn.
      by rewrite <- !app_assoc.
    - rewrite Hfetch, Hload. rewrite fetchTeams_run in Hfetch.
      rewrite loadPreviousTeams_run in Hload.
      injection Hfetch as _ Hw2. injection Hload as _ Hw3.
      assert (∀ p, (saveAndCompare env token webhookURL id curr p w3).2
                   = (logPrintf saveFailedFormat
                        id err w4).2) as Hcut.
      { intros p. unfold saveAndCompare, mbind, M_bind. by rewrite Hsave. }
      assert (history w4
              = history w3 ++ [FileWritten (fileName id) (Stored curr)]) as Hw4.
      { rewrite saveTeams_run in Hsave. cbn zeta in Hsave.
        destruct (WriteFile _ _ _); by injection Hsave as _ <-. }
      split; [|done].
      transitivity
        (history w4
           ++ [Logged saveFailedFormat id err]).
      { destruct prev as [err'|prev]; [rewrite Hprev|]; by rewrite Hcut. }
      rewrite Hw4, <- Hw3. cbn. rewrite <- Hw2. cbn. by rewrite <- !app_assoc. }
  split; [done|]. split; [done|].
  assert (exec (forEach (before ++ id :: after) turn) w
          = exec (forEach after turn) (exec (turn id) w1)) as Hgo
    by by rewrite forEach_app, forEach_cons.
  split; [done|].
  destruct (forEach_requests after (exec (turn id) w1)) as (later & Hlater & Hall).
  exists later. split; [|done].
  by rewrite Hgo, Hlater, Hturn, <- app_assoc.
Qed.

(** C6: when the roster was fetched and no snapshot file exists, the load
    reports "not found", which is not treated as an error: the turn goes
    on to write the fetched snapshot, and ends there, with no comparison,
    no name request and no post; once the write is accepted the file holds
    the fetched snapshot. *)
Theorem first_run_persists id w currTeams w1 :
  fetchTeams env token id
    (exec (printf ("Processing event ID: " +:+ id +:+ nl)) w) = (inr currTeams, w1) →
  files w !! fileName id = None →
  readFault env (history w1) (fileName id) = false →
  (loadPreviousTeams env id w1).1 = inl ErrNotExist
  ∧ history (exec (turn id) w)
    = history w ++
      [Printed ("Processing event ID: " +:+ id +:+ nl);
       Requested (baseURL id) ("Bearer " +:+ token);
       FileRead (fileName id);
       FileWritten (fileName id) (Stored currTeams);
       match WriteFile env (history w1 ++ [FileRead (fileName id)]) (fileName id) with
       | Written =>
           Printed ("No previous team data to compare for event " +:+ id +:+ "." +:+ nl)
       | _ => Logged saveFailedFormat id ErrFileSystem
       end]
  ∧ (WriteFile env (history w1 ++ [FileRead (fileName id)]) (fileName id) = Written →
     files (exec (turn id) w) = <[fileName id := Stored currTeams]> (files w)).
Proof.
  intros Hfetch Hnone Hread.
  assert (files w1 = files w
          ∧ history w1
            = history w ++ [Printed ("Processing event ID: " +:+ id +:+ nl);
                            Requested (baseURL id) ("Bearer " +:+ token)])
    as [Hfiles Hhist].
  { rewrite fetchTeams_run in Hfetch. injection Hfetch as _ <-. cbn.
    by rewrite <- app_assoc. }
  assert (loadPreviousTeams env id w1
          = (inl ErrNotExist,
             mkWorld (files w1) (history w1 ++ [FileRead (fileName id)]))) as Hload.
  { by rewrite loadPreviousTeams_run, Hread, Hfiles, Hnone. }
  split; [by rewrite Hload|].
  unfold exec. rewrite processEvent_run, Hfetch, Hload. cbn [IsNotExist].
  unfold saveAndCompare, mbind, M_bind. rewrite saveTeams_run. cbn zeta.
  cbn [history files].
  destruct (WriteFile _ _ _); cbn; rewrite Hhist, <- ?app_assoc, ?Hfiles;
    by split.
Qed.

End LoopFacts.

Section MainFacts.

Context (env : Env).

(** C3, amended: with [EVENT_IDS] empty (and the token and the webhook
    address set) [strings.Split] gives the one-element list holding the
    empty string, so the loop runs exactly one turn, for the empty
    identifier, and that turn asks for a roster. *)
Theorem empty_EVENT_IDS_one_turn w :
  Getenv env "EVENT_IDS" = "" →
  Getenv env "API_TOKEN" ≠ "" →
  Getenv env "SLACK_WEBHOOK_URL" ≠ "" →
  Strings.Split (Getenv env "EVENT_IDS") "," = [""]
  ∧ main env w
    = (0, exec (processEvent env (Getenv env "API_TOKEN")
                  (Getenv env "SLACK_WEBHOOK_URL") "") w)
  ∧ ∃ more,
      history (exec (main env) w)
      = history w ++ Printed ("Processing event ID: " +:+ nl)
          :: Requested (baseURL "") ("Bearer " +:+ Getenv env "API_TOKEN") :: more.
Proof.
  intros Hids Htoken Hhook.
  assert (main env w
          = (0, exec (processEvent env (Getenv env "API_TOKEN")
                        (Getenv env "SLACK_WEBHOOK_URL") "") w)) as Hmain.
  { unfold main. apply String.eqb_neq in Htoken, Hhook.
    rewrite Htoken, Hhook, Hids. cbn [Strings.Split Strings.Count Strings.countLoop
      String.length Strings.splitLoop forEach].
    unfold exec, mbind, M_bind, mret, M_ret.
    by destruct (processEvent _ _ _ _ _) as [[] w']. }
  split; [by rewrite Hids|]. split; [done|].
  unfold exec at 1. rewrite Hmain. cbn [snd].
  apply (processEvent_begins env _ _ "" w).
Qed.

End MainFacts.

(** C3 as stated fails: with [EVENT_IDS] empty a roster is still
    requested. *)
Lemma empty_EVENT_IDS_still_fetches :
  ¬ (∀ env w,
       Getenv env "EVENT_IDS" = "" →
       ∀ url authorization,
         Requested url authorization ∉ history (exec (main env) w)).
Proof.
  intros claim.
  apply (claim (Scenario.offline "") Scenario.fresh eq_refl
           (baseURL "") "Bearer secret").
  vm_compute. apply list_elem_of_further, list_elem_of_here.
Qed.

(** ** The comparison [main] makes *)

(** With the empty comparison set that [main] passes, everything in the
    previous snapshot counts as missing. *)
Lemma missingInMain_whole_previous prevTeams currTeams :
  missingInMain prevTeams currTeams = Data prevTeams.
Proof.
  unfold missingInMain. rewrite findMissingTeams_unbound.
  induction (Data prevTeams) as [|t l IH]; [done|].
  rewrite filter_cons_True; [by rewrite IH|]. apply lookup_empty.
Qed.

(** C1, at the spec's scenario: compared with the current roster only
    team B is missing, but [main] compares with an empty slice, finds A
    and B missing, and posts a line for each. *)
Theorem main_compares_against_nothing :
  findMissingTeams (Data Scenario.previous) (Data Scenario.current) = [Scenario.teamB]
  ∧ missingInMain Scenario.previous Scenario.current
    = [Scenario.teamA; Scenario.teamB]
  ∧ history (exec (processEvent (Scenario.online "456") "secret"
                     "https://hooks.slack.test/T0" "456") Scenario.seen)
    = [Printed ("Processing event ID: 456" +:+ nl);
       Requested (baseURL "456") "Bearer secret";
       FileRead "456_teams.json";
       FileWritten "456_teams.json" (Stored Scenario.current);
       Requested "https://www.robotevents.com/api/v2/events/456" "Bearer secret";
       Posted "https://hooks.slack.test/T0"
         (composeMessage "Worlds" [Scenario.teamA; Scenario.teamB])].
Proof. split; [|split]; vm_compute; reflexivity. Qed.

Lemma failed_id_is_skipped_witness :
  Aborts (Scenario.online "123,456") "secret" "123"
    (exec (forEach [] (processEvent (Scenario.online "123,456") "secret"
                         "https://hooks.slack.test/T0")) Scenario.seen)
    (FetchFailed ErrRequest)
  ∧ ∃ later,
      history (exec (forEach ([] ++ "123" :: ["456"])
                       (processEvent (Scenario.online "123,456") "secret"
                          "https://hooks.slack.test/T0")) Scenario.seen)
      = history (exec (forEach [] (processEvent (Scenario.online "123,456") "secret"
                         "https://hooks.slack.test/T0")) Scenario.seen)
          ++ abortTrace "secret" "123" (FetchFailed ErrRequest) ++ later
      ∧ ∀ id', id' ∈ ["456"] →
          Requested (baseURL id') ("Bearer " +:+ "secret") ∈ later.
Proof.
  assert (Aborts (Scenario.online "123,456") "secret" "123"
            (exec (forEach [] (processEvent (Scenario.online "123,456") "secret"
                                 "https://hooks.slack.test/T0")) Scenario.seen)
            (FetchFailed ErrRequest)) as Ha.
  { eapply aborts_fetch. reflexivity. }
  split; [exact Ha|].
  exact (proj2 (proj2 (proj2
    (failed_id_is_skipped (Scenario.online "123,456") "secret"
       "https://hooks.slack.test/T0" [] "123" ["456"] Scenario.seen
       (FetchFailed ErrRequest) Ha)))).
Defined.

Lemma first_run_persists_witness :
  fetchTeams (Scenario.online "456") "secret" "456"
    (exec (printf ("Processing event ID: " +:+ "456" +:+ nl)) Scenario.fresh)
  = (inr Scenario.current, Scenario.asked)
  ∧ files Scenario.fresh !! fileName "456" = None
  ∧ readFault (Scenario.online "456") (history Scenario.asked) (fileName "456") = false
  ∧ files (exec (processEvent (Scenario.online "456") "secret"
                   "https://hooks.slack.test/T0" "456") Scenario.fresh)
    = <[fileName "456" := Stored Scenario.current]> (files Scenario.fresh).
Proof.
  split; [reflexivity|]. split; [reflexivity|]. split; [reflexivity|].
  refine (proj2 (proj2
    (first_run_persists (Scenario.online "456") "secret"
       "https://hooks.slack.test/T0" "456" Scenario.fresh Scenario.current
       Scenario.asked _ _ _)) _); reflexivity.
Defined.

Lemma empty_EVENT_IDS_one_turn_witness :
  Getenv (Scenario.offline "") "EVENT_IDS" = ""
  ∧ Getenv (Scenario.offline "") "API_TOKEN" ≠ ""
  ∧ Getenv (Scenario.offline "") "SLACK_WEBHOOK_URL" ≠ ""
  ∧ main (Scenario.offline "") Scenario.fresh
    = (0, exec (processEvent (Scenario.offline "")
                  (Getenv (Scenario.offline "") "API_TOKEN")
                  (Getenv (Scenario.offline "") "SLACK_WEBHOOK_URL") "")
             Scenario.fresh).
Proof.
  split; [reflexivity|]. split; [discriminate|]. split; [discriminate|].
  refine (proj1 (proj2
    (empty_EVENT_IDS_one_turn (Scenario.offline "") Scenario.fresh _ _ _)));
    [reflexivity|discriminate|discriminate].
Defined.

(** * Further properties *)

(** ** Laws of the diff engine *)

Section DiffAlgebra.

Implicit Types (prev curr : list Team) (team : Team) (i : Z).

(** The result as a filter on identifiers; the form the laws below share. *)
Lemma findMissingTeams_by_id prev curr :
  findMissingTeams prev curr = filter (λ team, ID team ∉ ID <$> curr) prev.
Proof.
  rewrite findMissingTeams_unbound.
  apply list_filter_iff. intros t. apply buildCurrMap_None.
Qed.

(** X1: compared with itself a sequence has nothing missing, whatever
    duplicates it holds. *)
Theorem findMissingTeams_self (X : list Team) : findMissingTeams X X = [].
Proof.
  rewrite findMissingTeams_by_id.
  assert (∀ l, (∀ t, t ∈ l → t ∈ X) →
               filter (λ team, ID team ∉ ID <$> X) l = []) as Hall.
  { induction l as [|t l IH]; intros Hin; [done|].
    rewrite filter_cons_False.
    - apply IH. intros t' Ht'. apply Hin. by right.
    - intros Hout. apply Hout, list_elem_of_fmap. exists t. split; [done|].
      apply Hin. by left. }
  by apply Hall.
Qed.

(** X2: the previous sequence is examined entity by entity: the result for
    two sequences put end to end is the two results put end to end. *)
Theorem findMissingTeams_app_previous prev1 prev2 curr :
  findMissingTeams (prev1 ++ prev2) curr
  = findMissingTeams prev1 curr ++ findMissingTeams prev2 curr.
Proof. by rewrite !findMissingTeams_by_id, filter_app. Qed.

(** X3: comparing with two comparison sets put end to end is comparing with
    the first and then comparing what is left with the second. *)
Theorem findMissingTeams_app_comparison prev curr1 curr2 :
  findMissingTeams prev (curr1 ++ curr2)
  = findMissingTeams (findMissingTeams prev curr1) curr2.
Proof.
  rewrite !findMissingTeams_by_id, list_filter_filter.
  apply list_filter_iff. intros t. rewrite fmap_app, elem_of_app. tauto.
Qed.

(** X4: the comparison set counts only through the identifiers that occur in
    it: two comparison sets with the same identifiers give the same
    result, whatever their order, repetitions and other fields. *)
Theorem findMissingTeams_same_ids prev curr1 curr2 :
  (∀ i, i ∈ ID <$> curr1 ↔ i ∈ ID <$> curr2) →
  findMissingTeams prev curr1 = findMissingTeams prev curr2.
Proof.
  intros Hsame. rewrite !findMissingTeams_by_id.
  apply list_filter_iff. intros t. by rewrite Hsame.
Qed.

(** X5: with more identifiers in the comparison set less is missing: the
    result for the larger set is a subsequence of the result for the
    smaller, which is a subsequence of the previous sequence. *)
Theorem findMissingTeams_sublist prev curr1 curr2 :
  (∀ i, i ∈ ID <$> curr1 → i ∈ ID <$> curr2) →
  findMissingTeams prev curr2 `sublist_of` findMissingTeams prev curr1
  ∧ findMissingTeams prev curr1 `sublist_of` prev.
Proof.
  intros Hsub. rewrite !findMissingTeams_by_id. split; [|apply sublist_filter].
  induction prev as [|t prev IH]; [done|].
  rewrite !filter_cons.
  destruct (decide (ID t ∉ ID <$> curr2)) as [H2|H2].
  - rewrite decide_True by (intros H1; apply H2; auto). by apply sublist_skip.
  - destruct (decide (ID t ∉ ID <$> curr1)); [by apply sublist_cons|done].
Qed.

End DiffAlgebra.

(** ** The snapshot store, Slack and the name request *)

Section FileNames.

Lemma list_ascii_of_string_app (s t : string) :
  list_ascii_of_string (s +:+ t)
  = list_ascii_of_string s ++ list_ascii_of_string t.
Proof.
  induction s as [|c s IH]; [done|].
  rewrite append_cons. cbn. by rewrite IH.
Qed.

Lemma append_inj_l (s1 s2 t : string) : s1 +:+ t = s2 +:+ t → s1 = s2.
Proof.
  intros Heq. apply (f_equal list_ascii_of_string) in Heq.
  rewrite !list_ascii_of_string_app in Heq. apply app_inv_tail in Heq.
  rewrite <- (string_of_list_ascii_of_string s1),
    <- (string_of_list_ascii_of_string s2). by rewrite Heq.
Qed.

Lemma fileName_inj (a b : string) : fileName a = fileName b → a = b.
Proof. apply append_inj_l. Qed.

End FileNames.

Section StoreFacts.

Context (env : Env).



(** X8: [sendSlackMessage] succeeds exactly when the post is answered with
    status 200; any other status, 2xx included, is returned as an error
    naming that status, and a failed post returns its own error.  The
    files are not touched. *)
Theorem sendSlackMessage_outcome webhookURL eventName missingTeams w :
  let answer :=
    Post env (history w) webhookURL (composeMessage eventName missingTeams) in
  let result := (sendSlackMessage env webhookURL eventName missingTeams w).1 in
  (result = None ↔ answer = inr StatusOK)
  ∧ (∀ code, answer = inr code → code ≠ StatusOK → result = Some (ErrStatus code))
  ∧ (∀ err, answer = inl err → result = Some err)
  ∧ files (exec (sendSlackMessage env webhookURL eventName missingTeams) w)
    = files w.
Proof.
  intros answer result. subst result.
  unfold sendSlackMessage, exec, post, mbind, M_bind. cbn zeta. fold answer.
  destruct answer as [err|code].
  - cbn. split; [split; discriminate|]. split; [discriminate|].
    split; [by intros ? [= <-]|done].
  - destruct (Z.eqb_spec code StatusOK) as [->|Hne]; cbn.
    + split; [done|]. split; [by intros ? [= <-] ?|]. split; [discriminate|done].
    + split; [split; [discriminate|by intros [= ?]]|].
      split; [by intros ? [= <-] _|]. split; [discriminate|done].
Qed.


End StoreFacts.

(** ** Paths through a turn *)

Section TurnFacts.

Context (env : Env) (token webhookURL : string).

Local Abbreviation turn := (processEvent env token webhookURL).
Local Abbreviation permitted := (Permitted token webhookURL).

Lemma fetchEventName_run eventID w :
  fetchEventName env token eventID w
  = (match Do env (history w) (nameURL eventID) ("Bearer " +:+ token) with
     | inl err => inl err
     | inr resp =>
       match asEvent (Body resp) with
       | None => inl ErrDecode
       | Some name => inr name
       end
     end,
     mkWorld (files w)
       (history w ++ [Requested (nameURL eventID) ("Bearer " +:+ token)])).
Proof.
  unfold fetchEventName, get, mbind, M_bind. cbn.
  destruct (Do env _ _ _) as [err|resp]; [done|].
  by destruct (asEvent _).
Qed.

Lemma sendSlackMessage_run eventName missingTeams w :
  sendSlackMessage env webhookURL eventName missingTeams w
  = (match Post env (history w) webhookURL
             (composeMessage eventName missingTeams) with
     | inl err => Some err
     | inr code => if negb (code =? StatusOK)%Z then Some (ErrStatus code) else None
     end,
     mkWorld (files w)
       (history w ++ [Posted webhookURL (composeMessage eventName missingTeams)])).
Proof.
  unfold sendSlackMessage, post, mbind, M_bind. cbn.
  destruct (Post env _ _ _) as [err|code]; [done|]. by destruct (negb _).
Qed.

(** The second half of a turn, step by step. *)
Lemma saveAndCompare_run eventID currTeams prevTeams w :
  saveAndCompare env token webhookURL eventID currTeams prevTeams w
  = match saveTeams env eventID currTeams w with
    | (Some err, w1) => logPrintf saveFailedFormat eventID err w1
    | (None, w1) =>
      match prevTeams with
      | None =>
          printf ("No previous team data to compare for event " +:+ eventID
                  +:+ "." +:+ nl) w1
      | Some prev =>
        match Data prev with
        | [] => (tt, w1)
        | _ :: _ =>
          match fetchEventName env token eventID w1 with
          | (inl err, w2) => logPrintf nameFailedFormat eventID err w2
          | (inr eventName, w2) =>
            match sendSlackMessage env webhookURL eventName (Data prev) w2 with
            | (Some err, w3) => logPrintf sendFailedFormat eventID err w3
            | (None, w3) => (tt, w3)
            end
          end
        end
      end
    end.
Proof.
  unfold saveAndCompare, mbind, M_bind.
  destruct (saveTeams _ _ _ _) as [[err|] w1]; [done|].
  destruct prevTeams as [prev|]; [|done].
  rewrite missingInMain_whole_previous.
  destruct (Data prev) as [|t l]; [done|]. cbn [length Nat.ltb Nat.leb].
  destruct (fetchEventName _ _ _ _) as [[err|name] w2]; [done|].
  by destruct (sendSlackMessage _ _ _ _ _) as [[err|] w3].
Qed.

(** What the second half of a turn adds to the history, and what it can
    have done to the files. *)
Lemma saveAndCompare_effect eventID currTeams prevTeams w :
  ∃ more,
    history (exec (saveAndCompare env token webhookURL eventID currTeams prevTeams) w)
    = history w ++ more
    ∧ Forall (permitted eventID) more
    ∧ (files (exec (saveAndCompare env token webhookURL eventID currTeams prevTeams) w)
       = files w
       ∨ ∃ data,
           files (exec (saveAndCompare env token webhookURL eventID currTeams
                          prevTeams) w)
           = <[fileName eventID := data]> (files w)).
Proof.
  unfold exec. rewrite saveAndCompare_run, saveTeams_run. cbn zeta.
  destruct (WriteFile _ _ _).
  - destruct prevTeams as [prev|].
    + destruct (Data prev) as [|t l].
      { eexists. split; [reflexivity|]. split; [repeat constructor|]. eauto. }
      rewrite fetchEventName_run.
      destruct (match Do _ _ _ _ with inl _ => _ | inr _ => _ end) as [err|name].
      { cbn. eexists. split; [rewrite <- !app_assoc; reflexivity|].
        split; [repeat constructor|]. eauto. }
      rewrite sendSlackMessage_run.
      destruct (match Post _ _ _ _ with inl _ => _ | inr _ => _ end) as [err|];
        cbn; (eexists; split; [rewrite <- !app_assoc; reflexivity|];
              split; [repeat constructor|]; eauto).
    + cbn. eexists. split; [rewrite <- !app_assoc; reflexivity|].
      split; [repeat constructor|]. eauto.
  - cbn. eexists. split; [rewrite <- !app_assoc; reflexivity|].
    split; [repeat constructor|]. eauto.
  - cbn. eexists. split; [rewrite <- !app_assoc; reflexivity|].
    split; [repeat constructor|]. eauto.
Qed.

(** The same for a whole turn. *)
Lemma processEvent_effect eventID w :
  ∃ more,
    history (exec (turn eventID) w) = history w ++ more
    ∧ Forall (permitted eventID) more
    ∧ (files (exec (turn eventID) w) = files w
       ∨ ∃ data,
           files (exec (turn eventID) w) = <[fileName eventID := data]> (files w)).
Proof.
  unfold exec. rewrite processEvent_run, fetchTeams_run.
  destruct (match Do _ _ _ _ with inl _ => _ | inr _ => _ end) as [err|curr].
  { cbn. eexists. split; [rewrite <- !app_assoc; reflexivity|].
    split; [repeat constructor|]. eauto. }
  rewrite loadPreviousTeams_run.
  set (w2 := mkWorld _ (_ ++ [FileRead _])).
  assert (∀ prev, ∃ more,
            history (saveAndCompare env token webhookURL eventID curr prev w2).2
            = history w ++ more
            ∧ Forall (permitted eventID) more
            ∧ (files (saveAndCompare env token webhookURL eventID curr prev w2).2
               = files w
               ∨ ∃ data,
                   files (saveAndCompare env token webhookURL eventID curr prev w2).2
                   = <[fileName eventID := data]> (files w))) as Hsave.
  { intros prev.
    destruct (saveAndCompare_effect eventID curr prev w2)
      as (more & Hmore & Hall & Hfiles).
    unfold exec in Hmore, Hfiles. rewrite Hmore. subst w2. cbn in *.
    eexists. split; [rewrite <- !app_assoc; reflexivity|]. split; [|done].
    repeat (apply Forall_cons; split; [constructor|]). done. }
  destruct (if readFault _ _ _ then _ else _) as [err|prev]; [|apply Hsave].
  destruct (IsNotExist err); [apply Hsave|].
  subst w2. cbn. eexists. split; [rewrite <- !app_assoc; reflexivity|].
  split; [repeat constructor|]. eauto.
Qed.

(** A turn leaves every file but the snapshot of its own event alone. *)
Lemma processEvent_frame eventID name w :
  name ≠ fileName eventID →
  files (exec (turn eventID) w) !! name = files w !! name.
Proof.
  intros Hne. destruct (processEvent_effect eventID w)
    as (more & _ & _ & [-> | [data ->]]); [done|].
  by rewrite lookup_insert_ne.
Qed.

(** A turn never writes over a snapshot it cannot decode. *)
Lemma processEvent_keeps_corrupt eventID w :
  files w !! fileName eventID = Some Corrupt →
  files (exec (turn eventID) w) = files w.
Proof.
  intros Hbad. unfold exec. rewrite processEvent_run, fetchTeams_run.
  destruct (match Do _ _ _ _ with inl _ => _ | inr _ => _ end) as [err|curr];
    [done|].
  rewrite loadPreviousTeams_run. cbn. rewrite Hbad.
  by destruct (readFault _ _ _).
Qed.


Lemma forEach_keeps_corrupt ids eventID w :
  files w !! fileName eventID = Some Corrupt →
  files (exec (forEach ids turn) w) !! fileName eventID = Some Corrupt.
Proof.
  revert w. induction ids as [|id ids IH]; intros w Hbad; [done|].
  rewrite forEach_cons. apply IH.
  destruct (decide (id = eventID)) as [->|Hne].
  - by rewrite processEvent_keeps_corrupt.
  - rewrite processEvent_frame; [done|].
    intros Heq. by apply Hne, fileName_inj.
Qed.

Lemma forEach_effect ids w :
  ∃ more,
    history (exec (forEach ids turn) w) = history w ++ more
    ∧ Forall (λ e, ∃ id, id ∈ ids ∧ permitted id e) more.
Proof.
  revert w. induction ids as [|id ids IH]; intros w.
  - exists []. split; [by rewrite app_nil_r|done].
  - rewrite forEach_cons.
    destruct (processEvent_effect id w) as (more1 & H1 & Hall1 & _).
    destruct (IH (exec (turn id) w)) as (more2 & H2 & Hall2).
    exists (more1 ++ more2). split; [by rewrite H2, H1, app_assoc|].
    apply Forall_app. split.
    + eapply Forall_impl; [exact Hall1|]. intros e He. exists id.
      split; [by left|done].
    + eapply Forall_impl; [exact Hall2|]. intros e (id' & Hin & He).
      exists id'. split; [by right|done].
Qed.

(** X10: once the roster was fetched, the load did not fail (a missing
    file is no failure) and the write is accepted, the snapshot file holds
    the fetched roster at the end of the turn, whatever the comparison,
    the name request and the post do afterwards. *)
Theorem snapshot_replaced_whatever_follows eventID w currTeams w1 prev w2 :
  fetchTeams env token eventID
    (exec (printf ("Processing event ID: " +:+ eventID +:+ nl)) w)
  = (inr currTeams, w1) →
  loadPreviousTeams env eventID w1 = (prev, w2) →
  match prev with inl err => IsNotExist err = true | inr _ => True end →
  WriteFile env (history w2) (fileName eventID) = Written →
  files (exec (turn eventID) w) = <[fileName eventID := Stored currTeams]> (files w).
Proof.
  intros Hfetch Hload Hprev Hwrite.
  assert (files w2 = files w) as Hfiles.
  { rewrite fetchTeams_run in Hfetch. rewrite loadPreviousTeams_run in Hload.
    injection Hfetch as _ <-. by injection Hload as _ <-. }
  assert (∀ p, files (saveAndCompare env token webhookURL eventID currTeams p w2).2
               = <[fileName eventID := Stored currTeams]> (files w)) as Hsave.
  { intros p. rewrite saveAndCompare_run, saveTeams_run. cbn zeta.
    rewrite Hwrite, Hfiles. destruct p as [p|]; [|done].
    destruct (Data p) as [|t l]; [done|].
    rewrite fetchEventName_run.
    destruct (match Do _ _ _ _ with inl _ => _ | inr _ => _ end) as [err|name];
      [done|].
    rewrite sendSlackMessage_run.
    by destruct (match Post _ _ _ _ with inl _ => _ | inr _ => _ end). }
  unfold exec. rewrite processEvent_run, Hfetch, Hload.
  destruct prev as [err|p]; [rewrite Hprev|]; apply Hsave.
Qed.

(** The history at the moment the comparison is made. *)
Lemma history_before_compare eventID w currTeams w1 prevTeams w2 w3 :
  fetchTeams env token eventID
    (exec (printf ("Processing event ID: " +:+ eventID +:+ nl)) w)
  = (inr currTeams, w1) →
  loadPreviousTeams env eventID w1 = (prevTeams, w2) →
  saveTeams env eventID currTeams w2 = (None, w3) →
  history w3
  = history w ++
    [Printed ("Processing event ID: " +:+ eventID +:+ nl);
     Requested (baseURL eventID) ("Bearer " +:+ token);
     FileRead (fileName eventID);
     FileWritten (fileName eventID) (Stored currTeams)].
Proof.
  intros Hfetch Hload Hsave.
  rewrite fetchTeams_run in Hfetch. rewrite loadPreviousTeams_run in Hload.
  rewrite saveTeams_run in Hsave. cbn zeta in Hsave.
  injection Hfetch as _ <-. injection Hload as _ <-.
  destruct (WriteFile _ _ _); try discriminate.
  injection Hsave as <-. cbn. by rewrite <- !app_assoc.
Qed.

(** X11: when a non-empty previous snapshot was loaded and every step
    succeeds, the turn is: progress line, roster request, read, write of
    the fetched roster, name request, and one post to the webhook whose
    text lists every team of the previous snapshot; the fetched roster
    has no influence on that text. *)
Theorem later_run_notifies_whole_previous
    eventID w currTeams w1 prevTeams w2 w3 eventName w4 w5 :
  fetchTeams env token eventID
    (exec (printf ("Processing event ID: " +:+ eventID +:+ nl)) w)
  = (inr currTeams, w1) →
  loadPreviousTeams env eventID w1 = (inr prevTeams, w2) →
  saveTeams env eventID currTeams w2 = (None, w3) →
  Data prevTeams ≠ [] →
  fetchEventName env token eventID w3 = (inr eventName, w4) →
  sendSlackMessage env webhookURL eventName (Data prevTeams) w4 = (None, w5) →
  history (exec (turn eventID) w)
  = history w ++
    [Printed ("Processing event ID: " +:+ eventID +:+ nl);
     Requested (baseURL eventID) ("Bearer " +:+ token);
     FileRead (fileName eventID);
     FileWritten (fileName eventID) (Stored currTeams);
     Requested (nameURL eventID) ("Bearer " +:+ token);
     Posted webhookURL (composeMessage eventName (Data prevTeams))].
Proof.
  intros Hfetch Hload Hsave Hsome Hname Hsend.
  pose proof (history_before_compare _ _ _ _ _ _ _ Hfetch Hload Hsave) as Hw3.
  unfold exec. rewrite processEvent_run, Hfetch, Hload, saveAndCompare_run, Hsave.
  destruct (Data prevTeams) as [|t l] eqn:Hdata; [done|].
  rewrite Hname, Hsend. rewrite fetchEventName_run in Hname.
  rewrite sendSlackMessage_run in Hsend.
  injection Hname as _ <-. injection Hsend as _ <-. cbn.
  by rewrite Hw3, <- !app_assoc.
Qed.

(** X12: when the name request fails after the snapshot was written, nothing
    is posted: the turn ends with one log line, and the file already holds
    the fetched roster. *)
Theorem name_failure_drops_notification
    eventID w currTeams w1 prevTeams w2 w3 err w4 :
  fetchTeams env token eventID
    (exec (printf ("Processing event ID: " +:+ eventID +:+ nl)) w)
  = (inr currTeams, w1) →
  loadPreviousTeams env eventID w1 = (inr prevTeams, w2) →
  saveTeams env eventID currTeams w2 = (None, w3) →
  Data prevTeams ≠ [] →
  fetchEventName env token eventID w3 = (inl err, w4) →
  history (exec (turn eventID) w)
  = history w ++
    [Printed ("Processing event ID: " +:+ eventID +:+ nl);
     Requested (baseURL eventID) ("Bearer " +:+ token);
     FileRead (fileName eventID);
     FileWritten (fileName eventID) (Stored currTeams);
     Requested (nameURL eventID) ("Bearer " +:+ token);
     Logged nameFailedFormat eventID err]
  ∧ files (exec (turn eventID) w) !! fileName eventID = Some (Stored currTeams).
Proof.
  intros Hfetch Hload Hsave Hsome Hname.
  pose proof (history_before_compare _ _ _ _ _ _ _ Hfetch Hload Hsave) as Hw3.
  unfold exec. rewrite processEvent_run, Hfetch, Hload, saveAndCompare_run, Hsave.
  destruct (Data prevTeams) as [|t l] eqn:Hdata; [done|].
  rewrite Hname. rewrite fetchEventName_run in Hname.
  injection Hname as _ <-. cbn. rewrite Hw3, <- !app_assoc. split; [done|].
  rewrite saveTeams_run in Hsave. cbn zeta in Hsave.
  destruct (WriteFile _ _ _); try discriminate.
  injection Hsave as <-. cbn. by rewrite lookup_insert_eq.
Qed.

(** X13: when the post fails or is answered with another status than 200,
    the turn ends with one log line carrying that error, after the single
    post; it is not sent again. *)
Theorem send_failure_is_logged
    eventID w currTeams w1 prevTeams w2 w3 eventName w4 err w5 :
  fetchTeams env token eventID
    (exec (printf ("Processing event ID: " +:+ eventID +:+ nl)) w)
  = (inr currTeams, w1) →
  loadPreviousTeams env eventID w1 = (inr prevTeams, w2) →
  saveTeams env eventID currTeams w2 = (None, w3) →
  Data prevTeams ≠ [] →
  fetchEventName env token eventID w3 = (inr eventName, w4) →
  sendSlackMessage env webhookURL eventName (Data prevTeams) w4 = (Some err, w5) →
  history (exec (turn eventID) w)
  = history w ++
    [Printed ("Processing event ID: " +:+ eventID +:+ nl);
     Requested (baseURL eventID) ("Bearer " +:+ token);
     FileRead (fileName eventID);
     FileWritten (fileName eventID) (Stored currTeams);
     Requested (nameURL eventID) ("Bearer " +:+ token);
     Posted webhookURL (composeMessage eventName (Data prevTeams));
     Logged sendFailedFormat eventID err].
Proof.
  intros Hfetch Hload Hsave Hsome Hname Hsend.
  pose proof (history_before_compare _ _ _ _ _ _ _ Hfetch Hload Hsave) as Hw3.
  unfold exec. rewrite processEvent_run, Hfetch, Hload, saveAndCompare_run, Hsave.
  destruct (Data prevTeams) as [|t l] eqn:Hdata; [done|].
  rewrite Hname, Hsend. rewrite fetchEventName_run in Hname.
  rewrite sendSlackMessage_run in Hsend.
  injection Hname as _ <-. injection Hsend as _ <-. cbn.
  by rewrite Hw3, <- !app_assoc.
Qed.

(** X14: when the previous snapshot holds no team, the turn ends once the
    fetched roster is written: no name is requested, nothing is posted and
    nothing is printed or logged. *)
Theorem empty_previous_is_silent eventID w currTeams w1 prevTeams w2 w3 :
  fetchTeams env token eventID
    (exec (printf ("Processing event ID: " +:+ eventID +:+ nl)) w)
  = (inr currTeams, w1) →
  loadPreviousTeams env eventID w1 = (inr prevTeams, w2) →
  saveTeams env eventID currTeams w2 = (None, w3) →
  Data prevTeams = [] →
  history (exec (turn eventID) w)
  = history w ++
    [Printed ("Processing event ID: " +:+ eventID +:+ nl);
     Requested (baseURL eventID) ("Bearer " +:+ token);
     FileRead (fileName eventID);
     FileWritten (fileName eventID) (Stored currTeams)].
Proof.
  intros Hfetch Hload Hsave Hnone.
  pose proof (history_before_compare _ _ _ _ _ _ _ Hfetch Hload Hsave) as Hw3.
  unfold exec.
  by rewrite processEvent_run, Hfetch, Hload, saveAndCompare_run, Hsave, Hnone.
Qed.

End TurnFacts.

(** ** The list of identifiers *)

Section SplitFacts.

Lemma from_zero (s : string) : Strings.from 0 s = s.
Proof.
  unfold Strings.from. rewrite Nat.sub_0_r.
  induction s as [|c s IH]; [done|]. cbn. by rewrite IH.
Qed.

Lemma from_succ (i : nat) (c : ascii) (s : string) :
  Strings.from (S i) (String c s) = Strings.from i s.
Proof. reflexivity. Qed.

Lemma prefix_cut (sep s : string) :
  String.prefix sep s = true →
  s = sep +:+ Strings.from (String.length sep) s.
Proof.
  revert s. induction sep as [|a sep IH]; intros s Hpre.
  - by rewrite from_zero.
  - destruct s as [|b s]; [discriminate|]. cbn in Hpre.
    destruct (ascii_dec a b) as [->|]; [|discriminate].
    cbn [String.length]. rewrite from_succ, append_cons. f_equal. by apply IH.
Qed.

Lemma index_cut (sep s : string) (m : nat) :
  String.index 0 sep s = Some m →
  s = String.substring 0 m s +:+ sep
        +:+ Strings.from (m + String.length sep) s.
Proof.
  revert m. induction s as [|b s IH]; intros m Hidx.
  - cbn in Hidx. destruct sep; [|discriminate]. by injection Hidx as <-.
  - cbn [String.index] in Hidx.
    destruct (String.prefix sep (String b s)) eqn:Hpre.
    + injection Hidx as <-. by apply prefix_cut.
    + destruct (String.index 0 sep s) as [n|] eqn:Hn; [|discriminate].
      injection Hidx as <-. cbn [Nat.add String.substring].
      rewrite from_succ, append_cons. f_equal. by apply IH.
Qed.

Lemma splitLoop_cons (n : nat) (s sep : string) :
  ∃ piece pieces, Strings.splitLoop n s sep = piece :: pieces.
Proof.
  destruct n as [|n]; cbn; [eauto|]. destruct (String.index 0 sep s); eauto.
Qed.

Lemma concat_cons_cons (sep a b : string) (l : list string) :
  String.concat sep (a :: b :: l) = a +:+ sep +:+ String.concat sep (b :: l).
Proof. reflexivity. Qed.

Lemma splitLoop_join (n : nat) (s sep : string) :
  String.concat sep (Strings.splitLoop n s sep) = s.
Proof.
  revert s. induction n as [|n IH]; intros s; [done|].
  cbn [Strings.splitLoop].
  destruct (String.index 0 sep s) as [m|] eqn:Hidx; [|done].
  destruct (splitLoop_cons n (Strings.from (m + String.length sep) s) sep)
    as (piece & pieces & Hrest).
  specialize (IH (Strings.from (m + String.length sep) s)).
  rewrite Hrest in *. rewrite concat_cons_cons, IH.
  symmetry. by apply index_cut.
Qed.

Lemma append_length (s t : string) :
  String.length (s +:+ t) = (String.length s + String.length t)%nat.
Proof.
  induction s as [|c s IH]; [done|]. rewrite append_cons. cbn. by rewrite IH.
Qed.

Lemma from_length (i : nat) (s : string) :
  String.length (Strings.from i s) = (String.length s - i)%nat.
Proof.
  revert i. induction s as [|c s IH]; intros [|i]; try done.
  - by rewrite from_zero.
  - rewrite from_succ. apply IH.
Qed.

Lemma prefix_of_cut (sep s : string) (k : nat) :
  String.prefix sep (String.substring 0 k s) = true → String.prefix sep s = true.
Proof.
  revert s k. induction sep as [|a sep IH]; intros s k Hpre; [by destruct s|].
  destruct s as [|b s]; [by destruct k|].
  destruct k as [|k]; [discriminate|]. cbn in *.
  destruct (ascii_dec a b); [|done]. by eapply IH.
Qed.

(** No separator starts inside the piece cut off in front of the first
    separator. *)
Lemma index_cut_free (sep s : string) (m : nat) :
  sep ≠ "" →
  String.index 0 sep s = Some m →
  String.index 0 sep (String.substring 0 m s) = None.
Proof.
  intros Hsep. revert m. induction s as [|b s IH]; intros m Hidx.
  - cbn in Hidx. by destruct sep.
  - cbn [String.index] in Hidx.
    destruct (String.prefix sep (String b s)) eqn:Hpre.
    + injection Hidx as <-. cbn. by destruct sep.
    + destruct (String.index 0 sep s) as [n|] eqn:Hn; [|discriminate].
      injection Hidx as <-. cbn [String.substring String.index].
      destruct (String.prefix sep (String b (String.substring 0 n s))) eqn:Hpre'.
      * apply (prefix_of_cut sep (String b s) (S n)) in Hpre'. congruence.
      * by rewrite (IH n).
Qed.

Lemma index_within (sep s : string) (m : nat) :
  String.index 0 sep s = Some m → (m + String.length sep ≤ String.length s)%nat.
Proof.
  intros Hidx. pose proof (index_cut sep s m Hidx) as Hcut.
  apply (f_equal String.length) in Hcut.
  rewrite !append_length in Hcut.
  assert (String.length (String.substring 0 m s) = m) as Hm.
  { clear Hcut. revert s Hidx. induction m as [|m IH]; intros s Hidx.
    - by destruct s.
    - destruct s as [|b s]; [by destruct sep|].
      cbn [String.index] in Hidx.
      destruct (String.prefix sep (String b s)); [discriminate|].
      destruct (String.index 0 sep s) as [n|] eqn:Hn; [|discriminate].
      injection Hidx as ->. cbn. f_equal. by apply IH. }
  lia.
Qed.

(** With [Count] turns the loop stops on a piece without separator. *)
Lemma splitLoop_free (fuel : nat) (s sep : string) :
  sep ≠ "" →
  (String.length s ≤ fuel)%nat →
  Forall (λ piece, String.index 0 sep piece = None)
    (Strings.splitLoop (Strings.countLoop fuel s sep) s sep).
Proof.
  intros Hsep. revert s. induction fuel as [|fuel IH]; intros s Hfuel.
  - destruct s; [|cbn in Hfuel; lia]. cbn. repeat constructor. by destruct sep.
  - cbn [Strings.countLoop].
    destruct (String.index 0 sep s) as [m|] eqn:Hidx.
    + cbn [Strings.splitLoop]. rewrite Hidx. constructor.
      * by apply index_cut_free.
      * apply IH. rewrite from_length.
        pose proof (index_within sep s m Hidx).
        assert (0 < String.length sep)%nat by (destruct sep; [done|cbn; lia]).
        lia.
    + cbn. by repeat constructor.
Qed.

(** X15: the pieces [strings.Split] cuts a string into, joined again with
    the separator, give the string back; there is always at least one
    piece, and no piece contains the separator.  So [main] drops no
    identifier of [EVENT_IDS], trims none, and keeps the empty ones. *)
Theorem Split_pieces (s sep : string) :
  sep ≠ "" →
  String.concat sep (Strings.Split s sep) = s
  ∧ Strings.Split s sep ≠ []
  ∧ Forall (λ piece, String.index 0 sep piece = None) (Strings.Split s sep).
Proof.
  intros Hsep. unfold Strings.Split. destruct sep as [|c sep]; [done|].
  split; [apply splitLoop_join|]. split.
  - by destruct (splitLoop_cons (Strings.Count s (String c sep)) s (String c sep))
      as (? & ? & ->).
  - by apply splitLoop_free.
Qed.

End SplitFacts.

(** ** Whole runs *)

Section RunFacts.

Context (env : Env).

Local Abbreviation token := (Getenv env "API_TOKEN").
Local Abbreviation webhookURL := (Getenv env "SLACK_WEBHOOK_URL").
Local Abbreviation eventIDs := (Strings.Split (Getenv env "EVENT_IDS") ",").

(** [main] with both settings present is the loop over the split list. *)
Lemma main_run w :
  token ≠ "" → webhookURL ≠ "" →
  main env w = (0, exec (forEach eventIDs (processEvent env token webhookURL)) w).
Proof.
  intros Htoken Hhook. unfold main. apply String.eqb_neq in Htoken, Hhook.
  rewrite Htoken, Hhook. unfold exec, mbind, M_bind, mret, M_ret.
  by destruct (forEach _ _ _) as [[] w'].
Qed.

(** [main] with a setting missing stops at the first one that is. *)
Lemma main_stop w :
  token = "" ∨ webhookURL = "" →
  main env w
  = (1, mkWorld (files w)
          (history w ++
           [Fatal (if String.eqb token ""
                   then "API_TOKEN environment variable is not set"
                   else "SLACK_WEBHOOK_URL environment variable is not set")])).
Proof.
  intros Hmissing. unfold main.
  destruct (String.eqb_spec token "") as [Htoken|Htoken]; [done|].
  destruct Hmissing as [?|Hhook]; [done|]. by rewrite Hhook.
Qed.

(** X16: when the token or the webhook address is not set, [main] exits with
    status 1 after a single fatal log line, naming the token if that is
    missing and the webhook address otherwise; no file changes and nothing
    is requested. *)
Theorem main_fatal_without_config w :
  token = "" ∨ webhookURL = "" →
  (main env w).1 = 1
  ∧ files (exec (main env) w) = files w
  ∧ history (exec (main env) w)
    = history w ++
      [Fatal (if String.eqb token ""
              then "API_TOKEN environment variable is not set"
              else "SLACK_WEBHOOK_URL environment variable is not set")].
Proof. intros Hmissing. unfold exec. by rewrite main_stop. Qed.

(** X17: with both settings present [main] exits with status 0 whatever
    fails on the way, and everything it does is permitted for one of the
    listed identifiers: the token goes only to the roster and name
    addresses of a listed event, posts go only to the webhook, only the
    snapshot files of listed events are read or written, and no fatal line
    is logged. *)
Theorem main_stays_within_bounds w :
  token ≠ "" → webhookURL ≠ "" →
  (main env w).1 = 0
  ∧ ∃ more,
      history (exec (main env) w) = history w ++ more
      ∧ Forall (λ e, ∃ id, id ∈ eventIDs ∧ Permitted token webhookURL id e) more.
Proof.
  intros Htoken Hhook. unfold exec at 1. rewrite main_run by done.
  split; [done|]. apply forEach_effect.
Qed.



(** X20: a snapshot file that cannot be decoded is never replaced: after
    [main], whatever the list of identifiers and whatever the network
    answers, it is still there and still cannot be decoded. *)
Theorem corrupt_snapshot_is_permanent eventID w :
  files w !! fileName eventID = Some Corrupt →
  files (exec (main env) w) !! fileName eventID = Some Corrupt.
Proof.
  intros Hbad.
  destruct (String.eqb_spec token "") as [Htoken|Htoken];
    [unfold exec; rewrite main_stop; [done|by left]|].
  destruct (String.eqb_spec webhookURL "") as [Hhook|Hhook];
    [unfold exec; rewrite main_stop; [done|by right]|].
  unfold exec at 1. rewrite main_run by done. by apply forEach_keeps_corrupt.
Qed.

End RunFacts.

(** ** The properties above at concrete inputs *)

Lemma findMissingTeams_same_ids_witness :
  (∀ i, i ∈ ID <$> Data Scenario.current ↔ i ∈ ID <$> Cases.renamed)
  ∧ findMissingTeams (Data Scenario.previous) (Data Scenario.current)
    = findMissingTeams (Data Scenario.previous) Cases.renamed.
Proof.
  assert (∀ i, i ∈ ID <$> Data Scenario.current ↔ i ∈ ID <$> Cases.renamed)
    as Hsame.
  { intros i. cbn. rewrite !elem_of_cons. tauto. }
  split; [exact Hsame|].
  apply (findMissingTeams_same_ids (Data Scenario.previous)
           (Data Scenario.current) Cases.renamed Hsame).
Defined.

Lemma findMissingTeams_sublist_witness :
  (∀ i, i ∈ ID <$> [] → i ∈ ID <$> Data Scenario.current)
  ∧ findMissingTeams (Data Scenario.previous) (Data Scenario.current)
      `sublist_of` findMissingTeams (Data Scenario.previous) []
  ∧ findMissingTeams (Data Scenario.previous) [] `sublist_of` Data Scenario.previous.
Proof.
  assert (∀ i, i ∈ ID <$> [] → i ∈ ID <$> Data Scenario.current) as Hsub.
  { intros i Hin. by apply not_elem_of_nil in Hin. }
  split; [exact Hsub|].
  apply (findMissingTeams_sublist (Data Scenario.previous) []
           (Data Scenario.current) Hsub).
Defined.



Lemma snapshot_replaced_whatever_follows_witness :
  files (exec (processEvent Cases.nameless "secret" "https://hooks.slack.test/T0"
                 "456") Scenario.seen)
  = <[fileName "456" := Stored Scenario.current]> (files Scenario.seen).
Proof.
  eapply (snapshot_replaced_whatever_follows Cases.nameless "secret"
            "https://hooks.slack.test/T0" "456" Scenario.seen Scenario.current);
    [reflexivity|reflexivity|exact I|reflexivity].
Defined.

Lemma later_run_notifies_whole_previous_witness :
  Data Scenario.previous ≠ []
  ∧ history (exec (processEvent (Scenario.online "456") "secret"
                     "https://hooks.slack.test/T0" "456") Scenario.seen)
    = history Scenario.seen ++
      [Printed ("Processing event ID: " +:+ "456" +:+ nl);
       Requested (baseURL "456") ("Bearer " +:+ "secret");
       FileRead (fileName "456");
       FileWritten (fileName "456") (Stored Scenario.current);
       Requested (nameURL "456") ("Bearer " +:+ "secret");
       Posted "https://hooks.slack.test/T0"
         (composeMessage "Worlds" (Data Scenario.previous))].
Proof.
  split; [discriminate|].
  eapply (later_run_notifies_whole_previous (Scenario.online "456") "secret"
            "https://hooks.slack.test/T0" "456" Scenario.seen Scenario.current);
    [reflexivity|reflexivity|reflexivity|discriminate|reflexivity|reflexivity].
Defined.

Lemma name_failure_drops_notification_witness :
  Data Scenario.previous ≠ []
  ∧ files (exec (processEvent Cases.nameless "secret"
                   "https://hooks.slack.test/T0" "456") Scenario.seen)
      !! fileName "456"
    = Some (Stored Scenario.current).
Proof.
  split; [discriminate|].
  edestruct (name_failure_drops_notification Cases.nameless "secret"
               "https://hooks.slack.test/T0" "456" Scenario.seen Scenario.current)
    as [_ Hfile];
    [reflexivity|reflexivity|reflexivity|discriminate|reflexivity|exact Hfile].
Defined.

Lemma send_failure_is_logged_witness :
  Data Scenario.previous ≠ []
  ∧ history (exec (processEvent Cases.muted "secret"
                     "https://hooks.slack.test/T0" "456") Scenario.seen)
    = history Scenario.seen ++
      [Printed ("Processing event ID: " +:+ "456" +:+ nl);
       Requested (baseURL "456") ("Bearer " +:+ "secret");
       FileRead (fileName "456");
       FileWritten (fileName "456") (Stored Scenario.current);
       Requested (nameURL "456") ("Bearer " +:+ "secret");
       Posted "https://hooks.slack.test/T0"
         (composeMessage "Worlds" (Data Scenario.previous));
       Logged sendFailedFormat "456" (ErrStatus 500)].
Proof.
  split; [discriminate|].
  eapply (send_failure_is_logged Cases.muted "secret"
            "https://hooks.slack.test/T0" "456" Scenario.seen Scenario.current);
    [reflexivity|reflexivity|reflexivity|discriminate|reflexivity|reflexivity].
Defined.

Lemma empty_previous_is_silent_witness :
  Data zeroAPIResponse = []
  ∧ history (exec (processEvent (Scenario.online "456") "secret"
                     "https://hooks.slack.test/T0" "456") Cases.seenNobody)
    = history Cases.seenNobody ++
      [Printed ("Processing event ID: " +:+ "456" +:+ nl);
       Requested (baseURL "456") ("Bearer " +:+ "secret");
       FileRead (fileName "456");
       FileWritten (fileName "456") (Stored Scenario.current)].
Proof.
  split; [reflexivity|].
  eapply (empty_previous_is_silent (Scenario.online "456") "secret"
            "https://hooks.slack.test/T0" "456" Cases.seenNobody Scenario.current);
    [reflexivity|reflexivity|reflexivity|reflexivity].
Defined.

Lemma Split_pieces_witness :
  "," ≠ ""
  ∧ String.concat "," (Strings.Split "123,,456," ",") = "123,,456,"
  ∧ Strings.Split "123,,456," "," ≠ []
  ∧ Forall (λ piece, String.index 0 "," piece = None)
      (Strings.Split "123,,456," ",").
Proof.
  split; [discriminate|]. apply (Split_pieces "123,,456," ","). discriminate.
Defined.

Lemma main_fatal_without_config_witness :
  (Getenv Cases.unconfigured "API_TOKEN" = ""
   ∨ Getenv Cases.unconfigured "SLACK_WEBHOOK_URL" = "")
  ∧ (main Cases.unconfigured Scenario.seen).1 = 1.
Proof.
  split; [by left|].
  apply (main_fatal_without_config Cases.unconfigured Scenario.seen). by left.
Defined.

Lemma main_stays_within_bounds_witness :
  Getenv (Scenario.online "123,456") "API_TOKEN" ≠ ""
  ∧ Getenv (Scenario.online "123,456") "SLACK_WEBHOOK_URL" ≠ ""
  ∧ (main (Scenario.online "123,456") Scenario.seen).1 = 0.
Proof.
  split; [discriminate|]. split; [discriminate|].
  apply (main_stays_within_bounds (Scenario.online "123,456") Scenario.seen);
    discriminate.
Defined.



Lemma corrupt_snapshot_is_permanent_witness :
  files Cases.broken !! fileName "456" = Some Corrupt
  ∧ files (exec (main (Scenario.online "456")) Cases.broken) !! fileName "456"
    = Some Corrupt.
Proof.
  split; [reflexivity|].
  apply (corrupt_snapshot_is_permanent (Scenario.online "456") "456" Cases.broken).
  reflexivity.
Defined.
